(** * URL shortener backend: auth middleware and short-url controllers

    A shallow embedding of
      - [backend/src/middlewares/authenticated.ts]  ([isAuthenticated])
      - [backend/src/modules/urls/controller.ts]    ([createShortUrl],
        [getShortUrl], [getAllShortUrlsByUser])
    Handlers are computations in a small monad that threads the request
    object and the database, records every observable call (token codec,
    [next()], [sendResponse], service calls, [console.log]) in a trace, and
    propagates thrown JavaScript errors to the enclosing [try]/[catch]. *)

From Stdlib Require Import ZArith Ascii String List Bool Lia.
From stdpp Require Import gmap strings list fin_maps pretty.

Local Open Scope string_scope.

(** ** JavaScript values that cross the handlers *)

(** JSON payloads handed to [sendResponse]. *)
#[warnings="-register-all"]
Inductive Json : Type :=
| JNull
| JNum (z : Z)
| JStr (s : string)
| JArr (items : list Json)
| JObj (fields : list (string * Json)).

(** The identity carried by a verified token (AuthToken claims). *)
Record Claims : Type := mkClaims {
  claim_userId : string;
  claim_email : string;
  claim_firstName : string;
  claim_lastName : string;
  claim_tokenType : string;
  claim_issuedAt : Z;
  claim_expiresAt : Z
}.

(** Error kinds the error classifier distinguishes. *)
Inductive ErrorKind : Type :=
| InvalidUrl
| NotFound
| Unauthenticated
| Uncaught.

(** A thrown value.  [err_name] is what [err?.['name']] evaluates to:
    [None] when the thrown value is null, undefined or has no name. *)
Record JsError : Type := mkError {
  err_name : option string;
  err_kind : ErrorKind;
  err_message : string
}.

(** One entry of express-validator's [validationResult(req)]. *)
Record ValidationError : Type := mkValidationError {
  ve_param : string;
  ve_msg : string
}.

(** The parts of the Express request the handlers read or write. *)
Record Request : Type := mkRequest {
  req_url : string;                          (* req.url *)
  req_headers : gmap string string;          (* req.header(name), req.get(name) *)
  req_body_originalUrl : option string;      (* req.body.originalUrl, req.body being an object *)
  req_params_urlId : string;                 (* req.params.urlId *)
  req_validation : list ValidationError;     (* validationResult(req) *)
  req_user : option Claims                   (* req.user *)
}.

(** [req.user = decoded] : every other field is left as it was. *)
Definition set_req_user (c : Claims) (r : Request) : Request :=
  {| req_url := req_url r;
     req_headers := req_headers r;
     req_body_originalUrl := req_body_originalUrl r;
     req_params_urlId := req_params_urlId r;
     req_validation := req_validation r;
     req_user := Some c |}.

(** The argument object of the service-layer [create]. *)
Record CreateArgs : Type := mkCreateArgs {
  arg_originalUrl : option string;
  arg_baseURL : option string;
  arg_userId : string
}.

(** What a handler's [return] hands back to Express. *)
Inductive JsRet : Type :=
| RetNext        (* the value of [next()] *)
| RetSent        (* the value of [sendResponse(...)] *)
| RetZero.       (* the literal 0 *)

(** Observable calls, in the order they happen. *)
Inductive Event : Type :=
| EvDecrypt (token : string)                          (* decryptAccessToken(token) *)
| EvNext                                              (* next() *)
| EvSend (status : Z) (data : Json) (message : Json)  (* sendResponse(res, ...) *)
| EvLog (label : string) (user : option Claims)       (* console.log(label, user) *)
| EvCreate (args : CreateArgs)                        (* create(args) *)
| EvGet (urlId : string).                             (* get(urlId) *)

(** Outcome of a call that may throw. *)
Inductive Result (A : Type) : Type :=
| Ok (a : A)
| Throw (e : JsError).
Arguments Ok {A} a.
Arguments Throw {A} e.

(** ** Collaborators that live outside the two modelled files

    The token codec ([utils]), the service layer ([./services]),
    [extractErrors] and the success message are imported by the handlers;
    they are the interface the handlers are written against. *)
Class Env : Type := mkEnv {
  Db : Type;
  codec : string -> Result Claims;
  service_create : CreateArgs -> Db -> Result Json * Db;
  service_get : string -> Db -> Result string * Db;
  extractErrors : list ValidationError -> Json;
  genericSuccess : string
}.

(** ** The handler monad *)

Record St `{Env} : Type := mkSt {
  st_req : Request;
  st_db : Db
}.

Definition M `{Env} (A : Type) : Type := St -> Result A * St * list Event.

Section Monad.
Context `{E : Env}.

Definition ret {A} (a : A) : M A := fun st => (Ok a, st, []).

Definition bind {A B} (m : M A) (k : A -> M B) : M B := fun st =>
  match m st with
  | (Ok a, st1, t1) =>
      match k a st1 with
      | (r, st2, t2) => (r, st2, (t1 ++ t2)%list)
      end
  | (Throw e, st1, t1) => (Throw e, st1, t1)
  end.

(** [try { body } catch (err) { handler }] *)
Definition try_catch {A} (body : M A) (handler : JsError -> M A) : M A :=
  fun st =>
    match body st with
    | (Ok a, st1, t1) => (Ok a, st1, t1)
    | (Throw e, st1, t1) =>
        match handler e st1 with
        | (r, st2, t2) => (r, st2, (t1 ++ t2)%list)
        end
    end.

Definition emit (ev : Event) : M unit := fun st => (Ok tt, st, [ev]).

Definition read_req : M Request := fun st => (Ok (st_req st), st, []).

Definition write_req (f : Request -> Request) : M unit := fun st =>
  (Ok tt, {| st_req := f (st_req st); st_db := st_db st |}, []).

Definition throw {A} (e : JsError) : M A := fun st => (Throw e, st, []).
End Monad.

Notation "'let!' x ':=' m 'in' k" := (bind m (fun x => k))
  (at level 10, x name, m at level 100, k at level 200).
Notation "'do!' m 'in' k" := (bind m (fun _ => k))
  (at level 10, m at level 100, k at level 200).

(** Projections of a run. *)
Definition outcome `{Env} {A} (r : Result A * St * list Event) : Result A := r.1.1.
Definition final `{Env} {A} (r : Result A * St * list Event) : St := r.1.2.
Definition trace `{Env} {A} (r : Result A * St * list Event) : list Event := r.2.

(** ** The imported functions, as monadic calls *)

Section Imports.
Context `{E : Env}.

(** [req.header(name)] / [req.get(name)] *)
Definition header (name : string) : M (option string) :=
  let! r := read_req in ret (req_headers r !! name).

(** [next()] *)
Definition next : M JsRet := do! emit EvNext in ret RetNext.

(** [sendResponse(res, status, data, message)] *)
Definition sendResponse (status : Z) (data message : Json) : M JsRet :=
  do! emit (EvSend status data message) in ret RetSent.

(** [decryptAccessToken(token)] : the call is recorded, then the codec
    either yields the claims or throws. *)
Definition decryptAccessToken (token : string) : M Claims :=
  do! emit (EvDecrypt token) in
  match codec token with
  | Ok c => ret c
  | Throw e => throw e
  end.

(** [await create(args)] *)
Definition create (args : CreateArgs) : M Json := fun st =>
  match service_create args (st_db st) with
  | (Ok d, db') => (Ok d, {| st_req := st_req st; st_db := db' |}, [EvCreate args])
  | (Throw e, db') => (Throw e, {| st_req := st_req st; st_db := db' |}, [EvCreate args])
  end.

(** [await get(urlId)] *)
Definition get (urlId : string) : M string := fun st =>
  match service_get urlId (st_db st) with
  | (Ok u, db') => (Ok u, {| st_req := st_req st; st_db := db' |}, [EvGet urlId])
  | (Throw e, db') => (Throw e, {| st_req := st_req st; st_db := db' |}, [EvGet urlId])
  end.

(** [validationResult(req)] *)
Definition validationResult : M (list ValidationError) :=
  let! r := read_req in ret (req_validation r).

(** [errors.isEmpty()] *)
Definition isEmpty (errors : list ValidationError) : bool :=
  match errors with
  | [] => true
  | _ :: _ => false
  end.

(** [console.log(label, user)] *)
Definition console_log (label : string) (user : option Claims) : M unit :=
  emit (EvLog label user).
End Imports.

(** The enumeration [HttpStatusCode] of [utils]; its compiled form sets
    [HttpStatusCode["Unauthorized"] = 401]. *)
Module HttpStatusCode.
Definition Unauthorized : Z := 401.
End HttpStatusCode.

(** Modelled from the spec: [handleCustomError] of [utils/handleCustomErrors]
    is not part of the modelled files.  The spec's error classifier maps the
    kind of a caught error to a status code (InvalidUrl 422, NotFound 404,
    Unauthenticated 401, anything else 500) and answers with the envelope. *)
Definition status_of_kind (k : ErrorKind) : Z :=
  match k with
  | InvalidUrl => 422
  | NotFound => 404
  | Unauthenticated => 401
  | Uncaught => 500
  end.

Definition handleCustomError `{Env} (err : JsError) : M JsRet :=
  sendResponse (status_of_kind (err_kind err)) (JObj []) (JStr (err_message err)).

(** ** middlewares/authenticated.ts *)

Definition whiteListEndpoints : list string := ["/urls/short"].

(** [{ tokenExpired: n }] *)
Definition tokenExpired (n : Z) : Json := JObj [("tokenExpired", JNum n)].

(** [err?.['name'] === s] *)
Definition name_is (err : JsError) (s : string) : bool :=
  bool_decide (err_name err = Some s).

(** The body of the [try] block either returns a value ([Some]) or falls
    off its end ([None]); so does the [catch] block.  In both cases of
    [None] control reaches the final [return 0]. *)
Definition isAuthenticated `{Env} : M JsRet :=
  let! token := header "Authorization" in
  let! r :=
    try_catch
      (match token with
       | None | Some "" =>
           let! req := read_req in
           if bool_decide (req_url req ∈ whiteListEndpoints)
           then let! v := next in ret (Some v)
           else
             let! v := sendResponse HttpStatusCode.Unauthorized
                         (tokenExpired 0) (JStr "Failed to Authenticate") in
             ret (Some v)
       | Some token =>
           let! decoded := decryptAccessToken token in
           do! write_req (set_req_user decoded) in
           do! next in
           ret None
       end)
      (fun err =>
         if name_is err "TokenExpiredError"
         then
           let! v := sendResponse HttpStatusCode.Unauthorized
                       (tokenExpired 1) (JStr "Token Expired") in
           ret (Some v)
         else if name_is err "JsonWebTokenError"
         then
           let! v := sendResponse HttpStatusCode.Unauthorized
                       (tokenExpired 0) (JStr "Corrupt Token") in
           ret (Some v)
         else if name_is err "validationError"
         then
           let! v := sendResponse HttpStatusCode.Unauthorized
                       (tokenExpired 0) (JStr "validationError") in
           ret (Some v)
         else ret None) in
  match r with
  | Some v => ret v
  | None => ret RetZero
  end.

(** ** modules/urls/controller.ts *)

Definition createShortUrl `{Env} : M JsRet :=
  try_catch
    (let! errors := validationResult in
     if negb (isEmpty errors)
     then
       let extractedErrors := extractErrors errors in
       sendResponse 422 (JObj []) (JObj [("errors", extractedErrors)])
     else
       let! req := read_req in
       let originalUrl := req_body_originalUrl req in
       let! baseURL := header "origin" in
       let userId := "" in
       do! console_log "user" (req_user req) in
       let! data := create {| arg_originalUrl := originalUrl;
                              arg_baseURL := baseURL;
                              arg_userId := userId |} in
       sendResponse 201 data (JStr genericSuccess))
    (fun err => handleCustomError err).

Definition getShortUrl `{Env} : M JsRet :=
  try_catch
    (let! errors := validationResult in
     if negb (isEmpty errors)
     then
       let extractedErrors := extractErrors errors in
       sendResponse 422 (JObj []) (JObj [("errors", extractedErrors)])
     else
       let! req := read_req in
       let urlId := req_params_urlId req in
       let! originalUrl := get urlId in
       sendResponse 201 (JObj [("originalUrl", JStr originalUrl)])
         (JStr genericSuccess))
    (fun err => handleCustomError err).

Definition getAllShortUrlsByUser `{Env} : M JsRet :=
  try_catch
    (let! errors := validationResult in
     if negb (isEmpty errors)
     then
       let extractedErrors := extractErrors errors in
       sendResponse 422 (JObj []) (JObj [("errors", extractedErrors)])
     else
       let! req := read_req in
       let urlId := req_params_urlId req in
       let! originalUrl := get urlId in
       sendResponse 201 (JObj [("originalUrl", JStr originalUrl)])
         (JStr genericSuccess))
    (fun err => handleCustomError err).

(** ** modules/urls/services.ts (not among the modelled files) *)

Module services.

(** Modelled from the spec: the ShortUrlMapping record of the data model,
    [{ id, originalUrl, shortCode, ownerUserId, createdAt }]. *)
Record ShortUrlMapping : Type := mkMapping {
  map_id : nat;
  originalUrl : string;
  shortCode : string;
  ownerUserId : option string;
  createdAt : nat
}.

(** Modelled from the spec: the persisted short-url collection, keyed by
    its unique [shortCode], with the position in the stream of random
    candidates and a logical clock for [createdAt]. *)
Record Store : Type := mkStore {
  mappings : gmap string ShortUrlMapping;
  seed : nat;
  clock : nat
}.

(** Modelled from the spec: the collection before any mapping is created. *)
Definition empty_store : Store :=
  {| mappings := ∅; seed := 0; clock := 0 |}.

(** Modelled from the spec: the errors of the taxonomy the service raises
    (InvalidUrl, NotFound, Internal). *)
Definition invalidUrlError : JsError :=
  {| err_name := Some "Error"; err_kind := InvalidUrl;
     err_message := "Invalid URL" |}.
Definition notFoundError : JsError :=
  {| err_name := Some "Error"; err_kind := NotFound;
     err_message := "Not found" |}.
Definition internalError : JsError :=
  {| err_name := Some "Error"; err_kind := Uncaught;
     err_message := "Internal" |}.

Section Service.
(** The stream of candidate codes (the random generator) and the
    absolute-URL parser are external to the service. *)
Variable gen : nat -> string.
Variable valid_url : string -> bool.

(** Modelled from the spec: the collision policy "regenerate until no
    existing mapping holds that code".  [fuel] bounds the number of
    attempts; the result is the fresh code and the next position. *)
Fixpoint regenerate (fuel : nat) (pos : nat)
    (m : gmap string ShortUrlMapping) : option (string * nat) :=
  match fuel with
  | O => None
  | S fuel' =>
      let code := gen pos in
      match m !! code with
      | None => Some (code, S pos)
      | Some _ => regenerate fuel' (S pos) m
      end
  end.

(** Modelled from the spec: [create({originalUrl, baseUrl, ownerUserId})]
    fails with InvalidUrl when the URL does not parse as an absolute
    URL; otherwise it generates a code no mapping holds, persists the
    mapping and returns [{shortUrl}], the base URL joined with the code
    as in the spec's scenario ("https://short.ly/<code>").  This is the
    budgeted form the handlers' environment runs: the regeneration loop
    ([create_within] below) is cut after one attempt more than there are
    mappings and the call then fails with an internal error. *)
Definition create (args : CreateArgs) (st : Store) : Result Json * Store :=
  match arg_originalUrl args with
  | None => (Throw invalidUrlError, st)
  | Some url =>
      if valid_url url then
        match regenerate (S (size (mappings st))) (seed st) (mappings st) with
        | None => (Throw internalError, st)
        | Some (code, pos) =>
            let base := default "undefined" (arg_baseURL args) in
            let mapping :=
              {| map_id := size (mappings st);
                 originalUrl := url;
                 shortCode := code;
                 ownerUserId := Some (arg_userId args);
                 createdAt := clock st |} in
            (Ok (JObj [("shortUrl", JStr (base +:+ "/" +:+ code))]),
             {| mappings := <[code := mapping]> (mappings st);
                seed := pos;
                clock := S (clock st) |})
        end
      else (Throw invalidUrlError, st)
  end.

(** Modelled from the spec: [get(code)] fails with NotFound if no
    mapping exists for [code]; otherwise returns the stored URL. *)
Definition get (code : string) (st : Store) : Result string * Store :=
  match mappings st !! code with
  | None => (Throw notFoundError, st)
  | Some mapping => (Ok (originalUrl mapping), st)
  end.

(** The handlers' environment with this service layer plugged in. *)
Definition env (decode : string -> Result Claims)
    (extract : list ValidationError -> Json) (success : string) : Env :=
  {| Db := Store;
     codec := decode;
     service_create := create;
     service_get := get;
     extractErrors := extract;
     genericSuccess := success |}.

(** Every persisted mapping was created without an owner identity. *)
Definition owners_empty (st : Store) : Prop :=
  ∀ code mapping, mappings st !! code = Some mapping →
                  ownerUserId mapping = Some "".

(** The store after a sequence of further [create] calls. *)
Definition create_all (more : list CreateArgs) (st : Store) : Store :=
  foldl (fun s a => (create a s).2) st more.

(** Modelled from the spec: [create] with the collision policy exactly as
    the spec words it, "regenerate until no existing mapping holds that
    code".  The loop has no bound of its own: [fuel] is the number of
    candidates looked at, and [None] says that after [fuel] candidates the
    loop is still regenerating (the call has not returned). *)
Definition create_within (fuel : nat) (args : CreateArgs) (st : Store)
    : option (Result Json * Store) :=
  match arg_originalUrl args with
  | None => Some (Throw invalidUrlError, st)
  | Some url =>
      if valid_url url then
        match regenerate fuel (seed st) (mappings st) with
        | None => None
        | Some (code, pos) =>
            let base := default "undefined" (arg_baseURL args) in
            let mapping :=
              {| map_id := size (mappings st);
                 originalUrl := url;
                 shortCode := code;
                 ownerUserId := Some (arg_userId args);
                 createdAt := clock st |} in
            Some (Ok (JObj [("shortUrl", JStr (base +:+ "/" +:+ code))]),
                  {| mappings := <[code := mapping]> (mappings st);
                     seed := pos;
                     clock := S (clock st) |})
        end
      else Some (Throw invalidUrlError, st)
  end.

(** The stores reachable from a store by [create] calls that return. *)
Inductive evolves : Store -> Store -> Prop :=
| evolves_refl st : evolves st st
| evolves_step st fuel args r st1 st2 :
    create_within fuel args st = Some (r, st1) ->
    evolves st1 st2 ->
    evolves st st2.
End Service.
End services.

(** ** Running a handler over a sequence of requests *)

(** The database after [handler] has served [reqs] one after the other. *)
Definition serve `{Env} (handler : M JsRet) (reqs : list Request) (db : Db) : Db :=
  foldl (fun d r => st_db (final (handler {| st_req := r; st_db := d |}))) db reqs.

(** ** Vocabulary of the statements *)

(** The request presents a token: [req.header('Authorization')] is a
    non-empty string, the only case in which [!token] is false. *)
Definition presents_token `{Env} (st : St) (t : string) : Prop :=
  req_headers (st_req st) !! "Authorization" = Some t ∧ t ≠ "".

(** [req.header('Authorization')] is undefined (or the empty string, which
    [!token] cannot tell apart). *)
Definition no_token `{Env} (st : St) : Prop :=
  req_headers (st_req st) !! "Authorization" = None ∨
  req_headers (st_req st) !! "Authorization" = Some "".

(** The path is exempt from authentication. *)
Definition exempt `{Env} (st : St) : Prop :=
  req_url (st_req st) ∈ whiteListEndpoints.

#[global] Instance exempt_dec `{Env} (st : St) : Decision (exempt st).
Proof. unfold exempt. apply _. Defined.

(** The token codec was called during the run. *)
Definition invokes_codec (tr : list Event) : Prop :=
  ∃ t, EvDecrypt t ∈ tr.

(** A response was sent during the run. *)
Definition responds (tr : list Event) : Prop :=
  ∃ status data message, EvSend status data message ∈ tr.

(** The service layer ([create] or [get]) was called during the run. *)
Definition invokes_service (tr : list Event) : Prop :=
  (∃ args, EvCreate args ∈ tr) ∨ (∃ urlId, EvGet urlId ∈ tr).

(** The argument objects handed to the service-layer [create]. *)
Definition create_calls (tr : list Event) : list CreateArgs :=
  omap (fun ev => match ev with EvCreate a => Some a | _ => None end) tr.

(** The 422 answer of the validation guard of the controllers. *)
Definition validation_response `{Env} (st : St) : Event :=
  EvSend 422 (JObj [])
    (JObj [("errors", extractErrors (req_validation (st_req st)))]).

(** The argument object [createShortUrl] hands to [create]. *)
Definition create_args_of (r : Request) : CreateArgs :=
  {| arg_originalUrl := req_body_originalUrl r;
     arg_baseURL := req_headers r !! "origin";
     arg_userId := "" |}.

(** ** Sample environment and requests *)

Definition sample_claims : Claims :=
  {| claim_userId := "64a1f0"; claim_email := "a@b.com";
     claim_firstName := "Ada"; claim_lastName := "Byron";
     claim_tokenType := "access"; claim_issuedAt := 1000;
     claim_expiresAt := 4600 |}.

Definition sample_error (name : string) : JsError :=
  {| err_name := Some name; err_kind := Unauthenticated; err_message := name |}.

(** A codec that accepts one token, reports one as expired, one as not
    yet valid ([NotBeforeError], the third error class of jsonwebtoken's
    [verify]) and rejects everything else as malformed. *)
Definition sample_codec (t : string) : Result Claims :=
  if String.eqb t "good.jwt.token" then Ok sample_claims
  else if String.eqb t "expired.jwt.token" then Throw (sample_error "TokenExpiredError")
  else if String.eqb t "early.jwt.token" then Throw (sample_error "NotBeforeError")
  else Throw (sample_error "JsonWebTokenError").

Definition sample_extract (errors : list ValidationError) : Json :=
  JArr (map (fun e => JObj [(ve_param e, JStr (ve_msg e))]) errors).

Definition sample_valid_url (u : string) : bool :=
  String.prefix "http://" u || String.prefix "https://" u.

Definition sample_gen (n : nat) : string := pretty n.

Definition sample_env : Env :=
  services.env sample_gen sample_valid_url sample_codec sample_extract "Success".

Definition sample_request (url : string) (auth : option string) : Request :=
  {| req_url := url;
     req_headers :=
       match auth with
       | Some a => <["Authorization" := a]> {["origin" := "https://short.ly"]}
       | None => {["origin" := "https://short.ly"]}
       end;
     req_body_originalUrl := Some "https://example.com/a/b";
     req_params_urlId := "0";
     req_validation := [];
     req_user := None |}.

Definition sample_state (url : string) (auth : option string) : @St sample_env :=
  @mkSt sample_env (sample_request url auth) services.empty_store.

Definition invalid_request : Request :=
  {| req_url := "/urls/short";
     req_headers := ∅;
     req_body_originalUrl := None;
     req_params_urlId := "";
     req_validation := [ {| ve_param := "originalUrl"; ve_msg := "Invalid value" |} ];
     req_user := None |}.

(** A store holding one mapping, and a lookup request for its code. *)
Definition sample_store : services.Store :=
  (services.create sample_gen sample_valid_url
     {| arg_originalUrl := Some "https://example.com/a/b";
        arg_baseURL := Some "https://short.ly";
        arg_userId := "" |} services.empty_store).2.

Definition sample_lookup_state : @St sample_env :=
  @mkSt sample_env (sample_request "/urls/0" None) sample_store.

(** The request as the middleware leaves it after accepting a token. *)
Definition sample_authed_state : @St sample_env :=
  final (isAuthenticated (sample_state "/urls/short" (Some "good.jwt.token"))).

(** A non-exempt request whose Authorization header is a bare token,
    without the "Bearer " prefix. *)
Definition bare_token_state : @St sample_env :=
  sample_state "/urls/abc123" (Some "good.jwt.token").

(** A non-exempt request whose token the codec refuses as not yet valid. *)
Definition early_token_state : @St sample_env :=
  sample_state "/urls/abc123" (Some "early.jwt.token").

(** ** Vocabulary for whole-run properties *)

(** The tokens handed to the codec during the run, in order. *)
Definition decrypt_calls (tr : list Event) : list string :=
  omap (fun ev => match ev with EvDecrypt t => Some t | _ => None end) tr.

Definition is_next (ev : Event) : bool :=
  match ev with EvNext => true | _ => false end.

Definition is_send (ev : Event) : bool :=
  match ev with EvSend _ _ _ => true | _ => false end.

Definition is_log (ev : Event) : bool :=
  match ev with EvLog _ _ => true | _ => false end.

(** How many events of the run satisfy [p]. *)
Definition count_events (p : Event -> bool) (tr : list Event) : nat :=
  length (List.filter p tr).

(** The run without its [console.log] lines: what the client and the
    service layer can observe. *)
Definition observable (tr : list Event) : list Event :=
  List.filter (fun ev => negb (is_log ev)) tr.

(** The seven ways a run of [isAuthenticated] can go, each with the
    condition on the request and the codec under which it is taken. *)
Inductive MiddlewareRun `{Env} (st : St) : Result JsRet * St * list Event -> Prop :=
| run_exempt :
    no_token st -> exempt st ->
    MiddlewareRun st (Ok RetNext, st, [EvNext])
| run_unauthenticated :
    no_token st -> ~ exempt st ->
    MiddlewareRun st
      (Ok RetSent, st,
       [EvSend 401 (tokenExpired 0) (JStr "Failed to Authenticate")])
| run_accepted t c :
    presents_token st t -> codec t = Ok c ->
    MiddlewareRun st
      (Ok RetZero,
       {| st_req := set_req_user c (st_req st); st_db := st_db st |},
       [EvDecrypt t; EvNext])
| run_expired t e :
    presents_token st t -> codec t = Throw e ->
    err_name e = Some "TokenExpiredError" ->
    MiddlewareRun st
      (Ok RetSent, st,
       [EvDecrypt t; EvSend 401 (tokenExpired 1) (JStr "Token Expired")])
| run_corrupt t e :
    presents_token st t -> codec t = Throw e ->
    err_name e = Some "JsonWebTokenError" ->
    MiddlewareRun st
      (Ok RetSent, st,
       [EvDecrypt t; EvSend 401 (tokenExpired 0) (JStr "Corrupt Token")])
| run_validation t e :
    presents_token st t -> codec t = Throw e ->
    err_name e = Some "validationError" ->
    MiddlewareRun st
      (Ok RetSent, st,
       [EvDecrypt t; EvSend 401 (tokenExpired 0) (JStr "validationError")])
| run_swallowed t e :
    presents_token st t -> codec t = Throw e ->
    err_name e <> Some "TokenExpiredError" ->
    err_name e <> Some "JsonWebTokenError" ->
    err_name e <> Some "validationError" ->
    MiddlewareRun st (Ok RetZero, st, [EvDecrypt t]).

(** Express hands the request to the handler registered after a
    middleware when, and only when, the middleware calls [next()]; the
    handler then sees the request object as the middleware left it. *)
Definition after_middleware `{Env} (middleware handler : M JsRet) : M JsRet :=
  fun st =>
    match middleware st with
    | (r1, st1, t1) =>
        if existsb is_next t1
        then match handler st1 with
             | (r2, st2, t2) => (r2, st2, (t1 ++ t2)%list)
             end
        else (r1, st1, t1)
    end.

(** An anonymous request to the exempt path with a query string. *)
Definition query_string_state : @St sample_env :=
  sample_state "/urls/short?ref=mail" None.

(** A request carrying the token in the [Bearer <token>] shape. *)
Definition bearer_state : @St sample_env :=
  sample_state "/urls/abc123" (Some "Bearer good.jwt.token").

(** A request to the exempt path whose token the codec reports expired. *)
Definition expired_state : @St sample_env :=
  sample_state "/urls/short" (Some "expired.jwt.token").

(** The codes handed to the service-layer [get]. *)
Definition get_calls (tr : list Event) : list string :=
  omap (fun ev => match ev with EvGet c => Some c | _ => None end) tr.

(** The events [createShortUrl] may produce. *)
Definition create_event (ev : Event) : Prop :=
  match ev with
  | EvLog _ _ | EvCreate _ | EvSend _ _ _ => True
  | _ => False
  end.

(** The events the lookup controllers may produce. *)
Definition lookup_event (ev : Event) : Prop :=
  match ev with
  | EvGet _ | EvSend _ _ _ => True
  | _ => False
  end.

(** An anonymous request to the exempt path. *)
Definition anonymous_state : @St sample_env :=
  sample_state "/urls/short" None.

(** ** The request's path *)

(** [req.path]: the url up to its query string. *)
Fixpoint path_of (url : string) : string :=
  match url with
  | EmptyString => EmptyString
  | String c rest =>
      if Ascii.eqb c "?"%char then EmptyString else String c (path_of rest)
  end.

(** The request's path, as opposed to its url, is in the exemption list. *)
Definition path_exempt `{Env} (st : St) : Prop :=
  path_of (req_url (st_req st)) ∈ whiteListEndpoints.

(** A request to the exempt path whose Authorization header is present
    with an empty value. *)
Definition empty_header_state : @St sample_env :=
  sample_state "/urls/short" (Some "").

(** A generator that can only produce one code, and the store in which
    that code is taken (reached by one [create] from the empty store). *)
Definition stuck_gen (n : nat) : string := "aaaaaa".

Definition stuck_store : services.Store :=
  (services.create stuck_gen sample_valid_url
     {| arg_originalUrl := Some "https://example.com/first";
        arg_baseURL := Some "https://short.ly";
        arg_userId := "" |} services.empty_store).2.

(** * Properties *)

(** ** Service-layer lemmas *)

Section ServiceProperties.
Variable gen : nat -> string.
Variable valid_url : string -> bool.

Local Abbreviation regenerate := (services.regenerate gen).
Local Abbreviation svc_create := (services.create gen valid_url).
Local Abbreviation svc_create_all := (services.create_all gen valid_url).

Lemma regenerate_fresh fuel pos (m : gmap string services.ShortUrlMapping) code pos' :
  regenerate fuel pos m = Some (code, pos') → m !! code = None.
Proof.
  revert pos. induction fuel as [|fuel IH]; intros pos; simpl; [done|].
  destruct (m !! gen pos) eqn:Hl.
  - apply IH.
  - intros [= <- _]. exact Hl.
Qed.

Lemma regenerate_exhausted fuel pos (m : gmap string services.ShortUrlMapping) :
  regenerate fuel pos m = None →
  ∀ i, (i < fuel)%nat → is_Some (m !! gen (pos + i)).
Proof.
  revert pos. induction fuel as [|fuel IH]; intros pos; simpl.
  - intros _ i Hi. lia.
  - destruct (m !! gen pos) eqn:Hl; [|done].
    intros Hr [|i] Hi.
    + rewrite Nat.add_0_r. eauto.
    + replace (pos + S i) with (S pos + i) by lia. apply IH; [done | lia].
Qed.

(** Pigeonhole: an injective stream cannot keep hitting a store that
    holds fewer codes than attempts were made. *)
Lemma regenerate_total fuel pos (m : gmap string services.ShortUrlMapping) :
  Inj (=) (=) gen → (size m < fuel)%nat → is_Some (regenerate fuel pos m).
Proof.
  intros Hinj Hsz.
  destruct (regenerate fuel pos m) as [r|] eqn:Hr; [eauto|].
  exfalso.
  pose proof (regenerate_exhausted _ _ _ Hr) as Hall.
  set (l := gen <$> seq pos fuel).
  assert (NoDup l) as Hnd.
  { apply (NoDup_fmap_2 gen). apply NoDup_seq. }
  assert (list_to_set l ⊆ dom m) as Hsub.
  { intros c Hc. apply elem_of_list_to_set in Hc.
    apply list_elem_of_fmap in Hc as (i & -> & Hi).
    apply elem_of_seq in Hi. apply elem_of_dom.
    replace i with (pos + (i - pos)) by lia. apply Hall. lia. }
  apply subseteq_size in Hsub.
  rewrite size_list_to_set in Hsub by done.
  rewrite size_dom in Hsub.
  unfold l in Hsub. rewrite length_fmap, length_seq in Hsub. lia.
Qed.

Lemma create_keeps args st code mapping :
  services.mappings st !! code = Some mapping →
  services.mappings (svc_create args st).2 !! code = Some mapping.
Proof.
  intros Hl. unfold services.create.
  destruct (arg_originalUrl args) as [url|]; [|done].
  destruct (valid_url url); [|done].
  destruct (regenerate _ _ _) as [[c pos]|] eqn:Hr; [|done].
  apply regenerate_fresh in Hr. simpl.
  rewrite lookup_insert_ne; [done|]. intros ->. congruence.
Qed.

Lemma create_all_keeps more st code mapping :
  services.mappings st !! code = Some mapping →
  services.mappings (svc_create_all more st) !! code = Some mapping.
Proof.
  revert st. induction more as [|a more IH]; intros st Hl; simpl; [done|].
  apply IH. by apply create_keeps.
Qed.

Lemma create_owner args st :
  arg_userId args = "" →
  services.owners_empty st → services.owners_empty (svc_create args st).2.
Proof.
  intros Hu Hst. unfold services.create.
  destruct (arg_originalUrl args) as [url|]; [|done].
  destruct (valid_url url); [|done].
  destruct (regenerate _ _ _) as [[c pos]|] eqn:Hr; [|done].
  intros code mapping. simpl. rewrite lookup_insert.
  case_decide as Hc.
  - intros [= <-]. simpl. by rewrite Hu.
  - apply Hst.
Qed.
End ServiceProperties.

(** ** The auth middleware, branch by branch *)

Ltac run_middleware :=
  unfold isAuthenticated, header, decryptAccessToken, next, sendResponse,
    try_catch, bind, read_req, write_req, emit, ret, throw,
    trace, final, outcome; simpl.

Section Middleware.
Context `{E : Env}.

(** No token, exempt path: [next()] and nothing else. *)
Lemma isAuthenticated_exempt (st : St) :
  no_token st → exempt st →
  isAuthenticated st = (Ok RetNext, st, [EvNext]).
Proof.
  intros Hno Hex. run_middleware.
  destruct Hno as [-> | ->]; simpl;
    by rewrite bool_decide_eq_true_2.
Qed.

(** No token, any other path: 401 "Failed to Authenticate". *)
Lemma isAuthenticated_unauthenticated (st : St) :
  no_token st → ¬ exempt st →
  isAuthenticated st =
    (Ok RetSent, st,
     [EvSend 401 (tokenExpired 0) (JStr "Failed to Authenticate")]).
Proof.
  intros Hno Hex. run_middleware.
  destruct Hno as [-> | ->]; simpl;
    by rewrite bool_decide_eq_false_2.
Qed.

(** A token is presented and the codec accepts it. *)
Lemma isAuthenticated_accepted (st : St) t c :
  presents_token st t → codec t = Ok c →
  isAuthenticated st =
    (Ok RetZero,
     {| st_req := set_req_user c (st_req st); st_db := st_db st |},
     [EvDecrypt t; EvNext]).
Proof.
  intros [Hh Hne] Hc. run_middleware. rewrite Hh.
  destruct t as [|a t]; [done|]. simpl. by rewrite Hc.
Qed.

(** A token is presented and the codec throws: the [catch] block decides
    by the error's name alone. *)
Lemma isAuthenticated_rejected (st : St) t e :
  presents_token st t → codec t = Throw e →
  isAuthenticated st =
    if name_is e "TokenExpiredError"
    then (Ok RetSent, st,
          [EvDecrypt t; EvSend 401 (tokenExpired 1) (JStr "Token Expired")])
    else if name_is e "JsonWebTokenError"
    then (Ok RetSent, st,
          [EvDecrypt t; EvSend 401 (tokenExpired 0) (JStr "Corrupt Token")])
    else if name_is e "validationError"
    then (Ok RetSent, st,
          [EvDecrypt t; EvSend 401 (tokenExpired 0) (JStr "validationError")])
    else (Ok RetZero, st, [EvDecrypt t]).
Proof.
  intros [Hh Hne] Hc. run_middleware. rewrite Hh.
  destruct t as [|a t]; [done|]. simpl. rewrite Hc. simpl.
  destruct (name_is e "TokenExpiredError"); [done|].
  destruct (name_is e "JsonWebTokenError"); [done|].
  by destruct (name_is e "validationError").
Qed.

(** The header either is falsy or presents a token. *)
Lemma token_cases (st : St) :
  no_token st ∨ ∃ t, presents_token st t.
Proof.
  unfold no_token, presents_token.
  destruct (req_headers (st_req st) !! "Authorization") as [t|];
    [|left; by left].
  destruct t as [|a t]; [left; by right|].
  right. by eexists.
Qed.

Lemma name_is_true e s : name_is e s = true ↔ err_name e = Some s.
Proof. unfold name_is. apply bool_decide_eq_true. Qed.
End Middleware.

(** Membership in an explicit trace is decided by inspection. *)
Ltac trace_absurd H :=
  apply list_elem_of_In in H; simpl in H; intuition discriminate.

Section MiddlewareFacts.
Context `{E : Env}.

(** Whenever a token is presented the codec is the first thing called,
    with the header value as it came, whatever the path. *)
Lemma isAuthenticated_decrypts_first (st : St) t :
  presents_token st t →
  ∃ rest, trace (isAuthenticated st) = EvDecrypt t :: rest.
Proof.
  intros Ht. destruct (codec t) as [c|e] eqn:Hc.
  - rewrite (isAuthenticated_accepted st t c Ht Hc). by eexists.
  - rewrite (isAuthenticated_rejected st t e Ht Hc).
    repeat case_match; by eexists.
Qed.

(** An error whose name the [catch] block does not list is swallowed:
    nothing is sent and [next()] is not called. *)
Lemma isAuthenticated_unlisted_error (st : St) t e :
  presents_token st t → codec t = Throw e →
  err_name e ≠ Some "TokenExpiredError" →
  err_name e ≠ Some "JsonWebTokenError" →
  err_name e ≠ Some "validationError" →
  isAuthenticated st = (Ok RetZero, st, [EvDecrypt t]).
Proof.
  intros Ht Hc H1 H2 H3.
  rewrite (isAuthenticated_rejected st t e Ht Hc).
  unfold name_is. by rewrite !bool_decide_eq_false_2.
Qed.
End MiddlewareFacts.

(** ** Claims about the auth middleware *)

(** C1 (the code departs from the claim).  The claim: a non-exempt request
    whose Authorization header lacks the "Bearer " prefix gets 401 without
    the token codec being invoked.  The middleware has no prefix check: on
    the request below (non-exempt path, header "good.jwt.token") it hands
    the header to the codec, stores the claims in [req.user] and calls
    [next()]; no response is sent. *)
Theorem isAuthenticated_ignores_bearer_prefix :
  ¬ exempt bare_token_state ∧
  presents_token bare_token_state "good.jwt.token" ∧
  String.prefix "Bearer " "good.jwt.token" = false ∧
  isAuthenticated bare_token_state =
    (Ok RetZero,
     {| st_req := set_req_user sample_claims (st_req bare_token_state);
        st_db := st_db bare_token_state |},
     [EvDecrypt "good.jwt.token"; EvNext]) ∧
  invokes_codec (trace (isAuthenticated bare_token_state)) ∧
  ¬ responds (trace (isAuthenticated bare_token_state)).
Proof.
  assert (presents_token bare_token_state "good.jwt.token") as Ht
    by (split; [reflexivity | done]).
  pose proof (isAuthenticated_accepted bare_token_state _ sample_claims Ht eq_refl)
    as Hrun.
  split; [|split; [exact Ht|split; [reflexivity|split; [exact Hrun|split]]]].
  - apply (bool_decide_eq_false_1 (exempt bare_token_state)). reflexivity.
  - rewrite Hrun. exists "good.jwt.token". simpl. apply list_elem_of_here.
  - rewrite Hrun. intros (s & d & m & Hin). simpl in Hin. trace_absurd Hin.
Qed.

(** C3 (as amended).  With no Authorization header: when [req.url] as a
    whole (query string included) is an entry of the exemption list, the
    middleware calls [next()] and nothing else; for every other [req.url]
    it answers 401 "Failed to Authenticate"; in neither case is the token
    codec invoked. *)
Theorem isAuthenticated_without_header `{Env} (st : St) :
  no_token st →
  (exempt st → isAuthenticated st = (Ok RetNext, st, [EvNext])) ∧
  (¬ exempt st →
     isAuthenticated st =
       (Ok RetSent, st,
        [EvSend 401 (tokenExpired 0) (JStr "Failed to Authenticate")])) ∧
  ¬ invokes_codec (trace (isAuthenticated st)).
Proof.
  intros Hno. split; [|split].
  - by apply isAuthenticated_exempt.
  - by apply isAuthenticated_unauthenticated.
  - intros [t Hin]. destruct (decide (exempt st)) as [Hex|Hex].
    + rewrite isAuthenticated_exempt in Hin by done. simpl in Hin.
      trace_absurd Hin.
    + rewrite isAuthenticated_unauthenticated in Hin by done. simpl in Hin.
      trace_absurd Hin.
Qed.

Lemma isAuthenticated_without_header_witness :
  no_token (sample_state "/urls/short" None) ∧
  exempt (sample_state "/urls/short" None) ∧
  isAuthenticated (sample_state "/urls/short" None) =
    (Ok RetNext, sample_state "/urls/short" None, [EvNext]).
Proof.
  assert (no_token (sample_state "/urls/short" None)) as Hno
    by (left; reflexivity).
  assert (exempt (sample_state "/urls/short" None)) as Hex
    by (apply (bool_decide_eq_true_1 (exempt _)); reflexivity).
  split; [exact Hno|split; [exact Hex|]].
  exact (proj1 (isAuthenticated_without_header _ Hno) Hex).
Defined.

(** C3, as first stated, fails: it speaks of the request's path, but the
    list is compared with [req.url].  The anonymous request below has the
    exempt path "/urls/short" and a query string; it is answered 401 and
    [next()] is not called. *)
Lemma isAuthenticated_exempt_path_with_query_rejected :
  no_token query_string_state ∧
  path_exempt query_string_state ∧
  isAuthenticated query_string_state =
    (Ok RetSent, query_string_state,
     [EvSend 401 (tokenExpired 0) (JStr "Failed to Authenticate")]) ∧
  ¬ (EvNext ∈ trace (isAuthenticated query_string_state)).
Proof.
  assert (no_token query_string_state) as Hno by (left; reflexivity).
  assert (¬ exempt query_string_state) as Hex.
  { apply (bool_decide_eq_false_1 (exempt query_string_state)). reflexivity. }
  pose proof (isAuthenticated_unauthenticated query_string_state Hno Hex) as Hrun.
  split; [exact Hno|]. split.
  { unfold path_exempt. simpl. apply list_elem_of_here. }
  split; [exact Hrun|].
  rewrite Hrun. intros Hin. simpl in Hin. trace_absurd Hin.
Qed.

(** C4 (the code departs from the claim).  The claim: every error thrown by
    token verification is answered with a 401.  The [catch] block answers
    only the names TokenExpiredError, JsonWebTokenError and validationError;
    on the request below the codec throws NotBeforeError and the middleware
    returns 0 having sent nothing and without calling [next()]. *)
Theorem isAuthenticated_swallows_other_errors :
  presents_token early_token_state "early.jwt.token" ∧
  sample_codec "early.jwt.token" = Throw (sample_error "NotBeforeError") ∧
  isAuthenticated early_token_state =
    (Ok RetZero, early_token_state, [EvDecrypt "early.jwt.token"]) ∧
  ¬ responds (trace (isAuthenticated early_token_state)).
Proof.
  assert (presents_token early_token_state "early.jwt.token") as Ht
    by (split; [reflexivity | done]).
  assert (isAuthenticated early_token_state =
          (Ok RetZero, early_token_state, [EvDecrypt "early.jwt.token"])) as Hrun.
  { by apply (isAuthenticated_unlisted_error early_token_state _
                (sample_error "NotBeforeError")). }
  split; [exact Ht|split; [reflexivity|split; [exact Hrun|]]].
  rewrite Hrun. intros (s & d & m & Hin). simpl in Hin. trace_absurd Hin.
Qed.

(** Case analysis on membership in an explicit trace. *)
Ltac trace_inv H :=
  apply list_elem_of_In in H; simpl in H;
  repeat (destruct H as [H|H]); try discriminate H; try contradiction;
  try (injection H as <- <- <-).



(** C7.  When the codec accepts the presented token, the middleware stores
    the decoded claims in [req.user], calls [next()], and does nothing
    else: every other field of the request and the database are unchanged
    and no response is sent. *)
Theorem isAuthenticated_success `{Env} (st : St) t c :
  presents_token st t → codec t = Ok c →
  trace (isAuthenticated st) = [EvDecrypt t; EvNext] ∧
  outcome (isAuthenticated st) = Ok RetZero ∧
  req_user (st_req (final (isAuthenticated st))) = Some c ∧
  req_url (st_req (final (isAuthenticated st))) = req_url (st_req st) ∧
  req_headers (st_req (final (isAuthenticated st))) = req_headers (st_req st) ∧
  req_body_originalUrl (st_req (final (isAuthenticated st))) =
    req_body_originalUrl (st_req st) ∧
  req_params_urlId (st_req (final (isAuthenticated st))) =
    req_params_urlId (st_req st) ∧
  req_validation (st_req (final (isAuthenticated st))) =
    req_validation (st_req st) ∧
  st_db (final (isAuthenticated st)) = st_db st ∧
  ¬ responds (trace (isAuthenticated st)).
Proof.
  intros Ht Hc. rewrite (isAuthenticated_accepted st t c Ht Hc).
  repeat (split; [reflexivity|]).
  intros (s & d & m & Hin). simpl in Hin. trace_inv Hin.
Qed.

Lemma isAuthenticated_success_witness :
  presents_token (sample_state "/urls/abc123" (Some "good.jwt.token"))
    "good.jwt.token" ∧
  trace (isAuthenticated (sample_state "/urls/abc123" (Some "good.jwt.token")))
    = [EvDecrypt "good.jwt.token"; EvNext] ∧
  req_user (st_req (final (isAuthenticated
              (sample_state "/urls/abc123" (Some "good.jwt.token")))))
    = Some sample_claims.
Proof.
  assert (presents_token (sample_state "/urls/abc123" (Some "good.jwt.token"))
            "good.jwt.token") as Ht by (split; [reflexivity | discriminate]).
  pose proof (isAuthenticated_success _ "good.jwt.token" sample_claims Ht eq_refl)
    as (Htr & _ & Hu & _).
  exact (conj Ht (conj Htr Hu)).
Defined.

(** C8 (as amended).  The exemption list is consulted only when the
    Authorization header is missing or empty: on an exempt path that
    carries a non-empty header the codec is still called on the header
    value, and a token it rejects under one of the names the [catch] block
    lists (TokenExpiredError, JsonWebTokenError, validationError) is
    answered 401; [next()] is not called and [req.user] is not set. *)
Theorem isAuthenticated_exempt_with_token `{Env} (st : St) t :
  exempt st → presents_token st t →
  (∃ rest, trace (isAuthenticated st) = EvDecrypt t :: rest) ∧
  (∀ e, codec t = Throw e →
     err_name e = Some "TokenExpiredError" ∨
     err_name e = Some "JsonWebTokenError" ∨
     err_name e = Some "validationError" →
     (EvNext ∉ trace (isAuthenticated st)) ∧
     final (isAuthenticated st) = st ∧
     ∃ d m, trace (isAuthenticated st) = [EvDecrypt t; EvSend 401 d m]).
Proof.
  intros _ Ht. split; [by apply isAuthenticated_decrypts_first|].
  intros e Hc Hn.
  rewrite (isAuthenticated_rejected st t e Ht Hc). unfold name_is.
  destruct Hn as [Hn|[Hn|Hn]]; rewrite Hn.
  - rewrite bool_decide_eq_true_2 by done. simpl.
    split; [intros Hin; trace_inv Hin|]. split; [done|]. by do 2 eexists.
  - rewrite bool_decide_eq_false_2 by discriminate.
    rewrite bool_decide_eq_true_2 by done. simpl.
    split; [intros Hin; trace_inv Hin|]. split; [done|]. by do 2 eexists.
  - rewrite !bool_decide_eq_false_2 by discriminate.
    rewrite bool_decide_eq_true_2 by done. simpl.
    split; [intros Hin; trace_inv Hin|]. split; [done|]. by do 2 eexists.
Qed.

(** C8, as first stated, fails: it covers every exempt-path request that
    carries the header, but [!token] is also true of an empty header
    value.  The request below carries [Authorization:] with an empty value
    on the exempt path; the codec is not called and [next()] is. *)
Lemma isAuthenticated_exempt_empty_header_proceeds :
  exempt empty_header_state ∧
  req_headers (st_req empty_header_state) !! "Authorization" = Some "" ∧
  isAuthenticated empty_header_state =
    (Ok RetNext, empty_header_state, [EvNext]) ∧
  ¬ invokes_codec (trace (isAuthenticated empty_header_state)).
Proof.
  assert (exempt empty_header_state) as Hex
    by (apply (bool_decide_eq_true_1 (exempt _)); reflexivity).
  assert (no_token empty_header_state) as Hno by (right; reflexivity).
  pose proof (isAuthenticated_exempt empty_header_state Hno Hex) as Hrun.
  split; [exact Hex|]. split; [reflexivity|]. split; [exact Hrun|].
  rewrite Hrun. intros [t Hin]. simpl in Hin. trace_inv Hin.
Qed.

Lemma isAuthenticated_exempt_with_token_witness :
  exempt (sample_state "/urls/short" (Some "expired.jwt.token")) ∧
  presents_token (sample_state "/urls/short" (Some "expired.jwt.token"))
    "expired.jwt.token" ∧
  ∃ rest, trace (isAuthenticated
                   (sample_state "/urls/short" (Some "expired.jwt.token")))
          = EvDecrypt "expired.jwt.token" :: rest.
Proof.
  assert (exempt (sample_state "/urls/short" (Some "expired.jwt.token"))) as Hex
    by (apply (bool_decide_eq_true_1 (exempt _)); reflexivity).
  assert (presents_token (sample_state "/urls/short" (Some "expired.jwt.token"))
            "expired.jwt.token") as Ht by (split; [reflexivity | discriminate]).
  exact (conj Hex (conj Ht
           (proj1 (isAuthenticated_exempt_with_token _ _ Hex Ht)))).
Defined.

(** ** The url controllers, branch by branch *)

Ltac run_controller :=
  unfold createShortUrl, getShortUrl, getAllShortUrlsByUser,
    handleCustomError, validationResult, header, console_log, sendResponse,
    create, get, try_catch, bind, read_req, emit, ret,
    trace, final, outcome; simpl.

Section Controllers.
Context `{E : Env}.

Lemma createShortUrl_invalid (st : St) :
  req_validation (st_req st) ≠ [] →
  createShortUrl st = (Ok RetSent, st, [validation_response st]).
Proof.
  intros Hv. unfold validation_response. run_controller.
  destruct (req_validation (st_req st)) eqn:Hv'; [congruence | done].
Qed.

Lemma getShortUrl_invalid (st : St) :
  req_validation (st_req st) ≠ [] →
  getShortUrl st = (Ok RetSent, st, [validation_response st]).
Proof.
  intros Hv. unfold validation_response. run_controller.
  destruct (req_validation (st_req st)) eqn:Hv'; [congruence | done].
Qed.

Lemma createShortUrl_valid (st : St) :
  req_validation (st_req st) = [] →
  createShortUrl st =
    match service_create (create_args_of (st_req st)) (st_db st) with
    | (Ok data, db') =>
        (Ok RetSent, {| st_req := st_req st; st_db := db' |},
         [EvLog "user" (req_user (st_req st));
          EvCreate (create_args_of (st_req st));
          EvSend 201 data (JStr genericSuccess)])
    | (Throw e, db') =>
        (Ok RetSent, {| st_req := st_req st; st_db := db' |},
         [EvLog "user" (req_user (st_req st));
          EvCreate (create_args_of (st_req st));
          EvSend (status_of_kind (err_kind e)) (JObj [])
            (JStr (err_message e))])
    end.
Proof.
  intros Hv. run_controller. rewrite Hv. simpl.
  unfold create_args_of.
  by destruct (service_create _ _) as [[d|e] db'].
Qed.

Lemma getShortUrl_valid (st : St) :
  req_validation (st_req st) = [] →
  getShortUrl st =
    match service_get (req_params_urlId (st_req st)) (st_db st) with
    | (Ok u, db') =>
        (Ok RetSent, {| st_req := st_req st; st_db := db' |},
         [EvGet (req_params_urlId (st_req st));
          EvSend 201 (JObj [("originalUrl", JStr u)]) (JStr genericSuccess)])
    | (Throw e, db') =>
        (Ok RetSent, {| st_req := st_req st; st_db := db' |},
         [EvGet (req_params_urlId (st_req st));
          EvSend (status_of_kind (err_kind e)) (JObj [])
            (JStr (err_message e))])
    end.
Proof.
  intros Hv. run_controller. rewrite Hv. simpl.
  by destruct (service_get _ _) as [[u|e] db'].
Qed.

(** Every path through a controller ends in exactly one response. *)
Lemma createShortUrl_responds (st : St) :
  responds (trace (createShortUrl st)).
Proof.
  destruct (req_validation (st_req st)) as [|v vs] eqn:Hv.
  - rewrite createShortUrl_valid by done.
    destruct (service_create _ _) as [[d|e] db']; simpl;
      do 3 eexists; do 2 apply list_elem_of_further; apply list_elem_of_here.
  - rewrite createShortUrl_invalid by (rewrite Hv; done).
    do 3 eexists. apply list_elem_of_here.
Qed.

Lemma getShortUrl_responds (st : St) :
  responds (trace (getShortUrl st)).
Proof.
  destruct (req_validation (st_req st)) as [|v vs] eqn:Hv.
  - rewrite getShortUrl_valid by done.
    destruct (service_get _ _) as [[d|e] db']; simpl;
      do 3 eexists; apply list_elem_of_further; apply list_elem_of_here.
  - rewrite getShortUrl_invalid by (rewrite Hv; done).
    do 3 eexists. apply list_elem_of_here.
Qed.
End Controllers.

(** The two lookup controllers have the same body. *)
Lemma getAllShortUrlsByUser_unfold `{Env} (st : St) :
  getAllShortUrlsByUser st = getShortUrl st.
Proof. reflexivity. Qed.

Ltac service_absurd H :=
  destruct H as [[? H] | [? H]]; simpl in H; trace_inv H.

(** ** Claims about the url controllers *)

(** C6.  A request that fails route-level validation is answered 422 by
    each controller, the request and the database are left as they were,
    and neither [create] nor [get] of the service layer is called. *)
Theorem validation_failure_never_reaches_service `{Env} (st : St) :
  req_validation (st_req st) ≠ [] →
  (createShortUrl st =
     (Ok RetSent, st,
      [EvSend 422 (JObj [])
         (JObj [("errors", extractErrors (req_validation (st_req st)))])]) ∧
   getShortUrl st =
     (Ok RetSent, st,
      [EvSend 422 (JObj [])
         (JObj [("errors", extractErrors (req_validation (st_req st)))])]) ∧
   getAllShortUrlsByUser st =
     (Ok RetSent, st,
      [EvSend 422 (JObj [])
         (JObj [("errors", extractErrors (req_validation (st_req st)))])])) ∧
  (¬ invokes_service (trace (createShortUrl st)) ∧
   ¬ invokes_service (trace (getShortUrl st)) ∧
   ¬ invokes_service (trace (getAllShortUrlsByUser st))).
Proof.
  intros Hv. rewrite (getAllShortUrlsByUser_unfold st).
  pose proof (createShortUrl_invalid st Hv) as Hc.
  pose proof (getShortUrl_invalid st Hv) as Hg.
  unfold validation_response in Hc, Hg. rewrite Hc, Hg.
  split; [done|].
  repeat split; intros Hs; service_absurd Hs.
Qed.

Lemma validation_failure_never_reaches_service_witness :
  req_validation invalid_request ≠ [] ∧
  createShortUrl (@mkSt sample_env invalid_request services.empty_store) =
    (Ok RetSent, @mkSt sample_env invalid_request services.empty_store,
     [EvSend 422 (JObj [])
        (JObj [("errors",
                JArr [JObj [("originalUrl", JStr "Invalid value")]])])]).
Proof.
  assert (req_validation invalid_request ≠ []) as Hv by discriminate.
  split; [exact Hv|].
  exact (proj1 (proj1 (validation_failure_never_reaches_service
                         (@mkSt sample_env invalid_request services.empty_store)
                         Hv))).
Defined.

(** C9.  [getAllShortUrlsByUser] and [getShortUrl] are the same function of
    the request and the database: the same validation guard, then a single
    [get] on [req.params.urlId], answered 201 with [{originalUrl}] holding
    the one URL found; no list is ever produced. *)
Theorem getAllShortUrlsByUser_is_getShortUrl `{Env} (st : St) :
  getAllShortUrlsByUser st = getShortUrl st ∧
  (req_validation (st_req st) ≠ [] →
   getAllShortUrlsByUser st =
     (Ok RetSent, st,
      [EvSend 422 (JObj [])
         (JObj [("errors", extractErrors (req_validation (st_req st)))])])) ∧
  (∀ u db',
     req_validation (st_req st) = [] →
     service_get (req_params_urlId (st_req st)) (st_db st) = (Ok u, db') →
     getAllShortUrlsByUser st =
       (Ok RetSent, {| st_req := st_req st; st_db := db' |},
        [EvGet (req_params_urlId (st_req st));
         EvSend 201 (JObj [("originalUrl", JStr u)]) (JStr genericSuccess)])).
Proof.
  rewrite (getAllShortUrlsByUser_unfold st). split; [done|]. split.
  - apply getShortUrl_invalid.
  - intros u db' Hv Hg. rewrite (getShortUrl_valid st Hv). by rewrite Hg.
Qed.

Lemma getAllShortUrlsByUser_is_getShortUrl_witness :
  req_validation (st_req sample_lookup_state) = [] ∧
  getAllShortUrlsByUser sample_lookup_state =
    (Ok RetSent, sample_lookup_state,
     [EvGet "0";
      EvSend 201 (JObj [("originalUrl", JStr "https://example.com/a/b")])
        (JStr "Success")]).
Proof.
  split; [reflexivity|].
  exact (proj2 (proj2 (getAllShortUrlsByUser_is_getShortUrl sample_lookup_state))
           "https://example.com/a/b" sample_store eq_refl eq_refl).
Defined.

(** ** The controllers over the modelled service layer *)

Section OverService.
Variable gen : nat -> string.
Variable valid_url : string -> bool.
Variable decode : string -> Result Claims.
Variable extract : list ValidationError -> Json.
Variable success : string.

Local Abbreviation env := (services.env gen valid_url decode extract success).

(** A valid URL always gets a code no mapping held, and the new mapping
    is stored under it. *)
Lemma create_inserts_fresh args st u :
  Inj (=) (=) gen → arg_originalUrl args = Some u → valid_url u = true →
  ∃ code pos,
    services.mappings st !! code = None ∧
    services.create gen valid_url args st =
      (Ok (JObj [("shortUrl",
                  JStr (default "undefined" (arg_baseURL args)
                        +:+ "/" +:+ code))]),
       {| services.mappings :=
            <[code := {| services.map_id := size (services.mappings st);
                         services.originalUrl := u;
                         services.shortCode := code;
                         services.ownerUserId := Some (arg_userId args);
                         services.createdAt := services.clock st |}]>
              (services.mappings st);
          services.seed := pos;
          services.clock := S (services.clock st) |}).
Proof.
  intros Hinj Hu Hv. unfold services.create. rewrite Hu, Hv.
  destruct (regenerate_total gen (S (size (services.mappings st)))
              (services.seed st) (services.mappings st) Hinj)
    as [[code pos] Hr]; [lia|].
  rewrite Hr. exists code, pos. split; [|done].
  by apply regenerate_fresh in Hr.
Qed.

(** [createShortUrl] never stores an owner. *)
Lemma createShortUrl_keeps_owners_empty (st : @St env) :
  services.owners_empty (st_db st) →
  services.owners_empty (st_db (final (createShortUrl st))).
Proof.
  intros Hst.
  destruct (req_validation (st_req st)) as [|v vs] eqn:Hv.
  - rewrite createShortUrl_valid by done.
    pose proof (create_owner gen valid_url (create_args_of (st_req st))
                  (st_db st) eq_refl Hst) as Hnew.
    simpl in *.
    by destruct (services.create gen valid_url _ _) as [[d|e] db'].
  - rewrite createShortUrl_invalid by (rewrite Hv; done). done.
Qed.

Lemma serve_createShortUrl_owners_empty reqs (db : services.Store) :
  services.owners_empty db →
  services.owners_empty (@serve env createShortUrl reqs db).
Proof.
  revert db. induction reqs as [|r reqs IH]; intros db Hdb; simpl; [done|].
  apply IH. by apply (createShortUrl_keeps_owners_empty (@mkSt env r db)).
Qed.
End OverService.

(** C10.  Whatever identity the middleware attached to the request,
    [createShortUrl] calls [create] at most once and always with
    [userId = ""] ([req.user] only reaches [console.log]); hence, over the
    modelled service layer, every mapping persisted through
    [createShortUrl] has the empty owner. *)
Theorem createShortUrl_userId_always_empty :
  (∀ (E : Env) (st : St),
     create_calls (trace (createShortUrl st)) =
       if isEmpty (req_validation (st_req st))
       then [ {| arg_originalUrl := req_body_originalUrl (st_req st);
                 arg_baseURL := req_headers (st_req st) !! "origin";
                 arg_userId := "" |} ]
       else []) ∧
  (∀ (E : Env) (st : St) args,
     EvCreate args ∈ trace (createShortUrl st) → arg_userId args = "") ∧
  (∀ gen valid_url decode extract success reqs,
     services.owners_empty
       (@serve (services.env gen valid_url decode extract success)
          createShortUrl reqs services.empty_store)).
Proof.
  split; [|split].
  - intros E st. destruct (req_validation (st_req st)) as [|v vs] eqn:Hv.
    + rewrite createShortUrl_valid by done.
      by destruct (service_create _ _) as [[d|e] db'].
    + rewrite createShortUrl_invalid by (rewrite Hv; done). done.
  - intros E st args Hin.
    destruct (req_validation (st_req st)) as [|v vs] eqn:Hv.
    + rewrite createShortUrl_valid in Hin by done.
      destruct (service_create _ _) as [[d|e] db']; simpl in Hin;
        apply list_elem_of_In in Hin; simpl in Hin;
        destruct Hin as [Hin|[Hin|[Hin|[]]]]; try discriminate Hin;
        by injection Hin as <-.
    + rewrite createShortUrl_invalid in Hin by (rewrite Hv; done).
      simpl in Hin. unfold validation_response in Hin. trace_inv Hin.
  - intros gen valid_url decode extract success reqs.
    apply serve_createShortUrl_owners_empty.
    intros code mapping. simpl. by rewrite lookup_empty.
Qed.

Lemma createShortUrl_userId_always_empty_witness :
  req_user (st_req sample_authed_state) = Some sample_claims ∧
  EvCreate {| arg_originalUrl := Some "https://example.com/a/b";
              arg_baseURL := Some "https://short.ly";
              arg_userId := "" |}
    ∈ trace (createShortUrl sample_authed_state) ∧
  arg_userId {| arg_originalUrl := Some "https://example.com/a/b";
                arg_baseURL := Some "https://short.ly";
                arg_userId := "" |} = "".
Proof.
  assert (EvCreate {| arg_originalUrl := Some "https://example.com/a/b";
                      arg_baseURL := Some "https://short.ly";
                      arg_userId := "" |}
            ∈ trace (createShortUrl sample_authed_state)) as Hin.
  { apply list_elem_of_In. vm_compute. right. left. reflexivity. }
  split; [reflexivity|]. split; [exact Hin|].
  exact (proj1 (proj2 createShortUrl_userId_always_empty)
           sample_env sample_authed_state _ Hin).
Defined.

(** When the candidate codes come from a stream without repetition, one
    attempt more than there are mappings always suffices (pigeonhole): the
    budgeted [create] succeeds on every valid URL and [get] on the code it
    returns gives that URL back, also after further [create] calls. *)
Theorem create_get_roundtrip (gen : nat -> string) (valid_url : string -> bool)
    (args : CreateArgs) (st : services.Store) (u : string) :
  Inj (=) (=) gen → arg_originalUrl args = Some u → valid_url u = true →
  ∃ code st',
    services.create gen valid_url args st =
      (Ok (JObj [("shortUrl",
                  JStr (default "undefined" (arg_baseURL args)
                        +:+ "/" +:+ code))]), st') ∧
    services.get code st' = (Ok u, st') ∧
    ∀ more,
      services.get code (services.create_all gen valid_url more st') =
        (Ok u, services.create_all gen valid_url more st').
Proof.
  intros Hinj Hu Hv.
  destruct (create_inserts_fresh gen valid_url args st u Hinj Hu Hv)
    as (code & pos & Hfresh & Hc).
  rewrite Hc. eexists code, _. split; [reflexivity|].
  set (st' := services.mkStore _ _ _).
  assert (services.mappings st' !! code =
          Some {| services.map_id := size (services.mappings st);
                  services.originalUrl := u;
                  services.shortCode := code;
                  services.ownerUserId := Some (arg_userId args);
                  services.createdAt := services.clock st |}) as Hl.
  { unfold st'. simpl. apply lookup_insert_eq. }
  split.
  - unfold services.get. by rewrite Hl.
  - intros more. unfold services.get.
    by rewrite (create_all_keeps gen valid_url more st' code _ Hl).
Qed.

Lemma create_get_roundtrip_witness :
  sample_valid_url "https://example.com/a/b" = true ∧
  ∃ code st',
    services.create sample_gen sample_valid_url
      {| arg_originalUrl := Some "https://example.com/a/b";
         arg_baseURL := Some "https://short.ly";
         arg_userId := "" |} services.empty_store =
      (Ok (JObj [("shortUrl", JStr ("https://short.ly" +:+ "/" +:+ code))]), st') ∧
    services.get code st' = (Ok "https://example.com/a/b", st') ∧
    ∀ more,
      services.get code (services.create_all sample_gen sample_valid_url more st') =
        (Ok "https://example.com/a/b",
         services.create_all sample_gen sample_valid_url more st').
Proof.
  split; [reflexivity|].
  apply (create_get_roundtrip sample_gen sample_valid_url
           {| arg_originalUrl := Some "https://example.com/a/b";
              arg_baseURL := Some "https://short.ly";
              arg_userId := "" |} services.empty_store
           "https://example.com/a/b").
  - unfold sample_gen. apply _.
  - reflexivity.
  - reflexivity.
Defined.

(** The round trip seen from the controllers: the code answered by
    [createShortUrl] is resolved by [getShortUrl] to the submitted URL. *)
Lemma controllers_roundtrip (gen : nat -> string) (valid_url : string -> bool)
    (decode : string -> Result Claims) (extract : list ValidationError -> Json)
    (success : string)
    (st : @St (services.env gen valid_url decode extract success)) (u : string) :
  Inj (=) (=) gen →
  req_validation (st_req st) = [] →
  req_body_originalUrl (st_req st) = Some u →
  valid_url u = true →
  ∃ code db',
    createShortUrl st =
      (Ok RetSent, {| st_req := st_req st; st_db := db' |},
       [EvLog "user" (req_user (st_req st));
        EvCreate (create_args_of (st_req st));
        EvSend 201
          (JObj [("shortUrl",
                  JStr (default "undefined" (req_headers (st_req st) !! "origin")
                        +:+ "/" +:+ code))])
          (JStr success)]) ∧
    ∀ r, req_validation r = [] → req_params_urlId r = code →
      getShortUrl {| st_req := r; st_db := db' |} =
        (Ok RetSent, {| st_req := r; st_db := db' |},
         [EvGet code;
          EvSend 201 (JObj [("originalUrl", JStr u)]) (JStr success)]).
Proof.
  intros Hinj Hv Hu Hok.
  destruct (create_inserts_fresh gen valid_url (create_args_of (st_req st))
              (st_db st) u Hinj Hu Hok) as (code & pos & _ & Hc).
  rewrite (createShortUrl_valid st Hv). simpl in *. rewrite Hc.
  eexists code, _. split; [reflexivity|].
  intros r Hr <-.
  rewrite getShortUrl_valid by done. simpl.
  unfold services.get. simpl. by rewrite lookup_insert_eq.
Qed.

(** * Further properties of the middleware *)

(** Every run of [isAuthenticated] is one of the seven listed ones. *)
Lemma isAuthenticated_run `{Env} (st : St) :
  MiddlewareRun st (isAuthenticated st).
Proof.
  destruct (token_cases st) as [Hno | [t Ht]].
  - destruct (decide (exempt st)) as [Hex|Hex].
    + rewrite isAuthenticated_exempt by done. by constructor.
    + rewrite isAuthenticated_unauthenticated by done. by constructor.
  - destruct (codec t) as [c|e] eqn:Hc.
    + rewrite (isAuthenticated_accepted st t c Ht Hc). by econstructor.
    + rewrite (isAuthenticated_rejected st t e Ht Hc). unfold name_is.
      repeat case_bool_decide.
      * by eapply run_expired.
      * by eapply run_corrupt.
      * by eapply run_validation.
      * by eapply run_swallowed.
Qed.

(** A request cannot both lack and present a token. *)
Lemma no_token_presents `{Env} (st : St) t :
  no_token st → presents_token st t → False.
Proof. intros [Hn|Hn] [Hh Hne]; congruence. Qed.

(** The presented token is the header value, so it is unique. *)
Lemma presents_token_inj `{Env} (st : St) t1 t2 :
  presents_token st t1 → presents_token st t2 → t1 = t2.
Proof. intros [H1 _] [H2 _]. congruence. Qed.

(** Analyse a run of the middleware into its seven cases. *)
Ltac middleware_cases st :=
  let r := fresh "r" in
  let Hr := fresh "Hr" in
  generalize (isAuthenticated_run st);
  generalize (isAuthenticated st); intros r Hr; destruct Hr; simpl.

(** X1.  The middleware lets a request through ([next()] is called)
    exactly when no token is presented on an exempt path, or the presented
    token is accepted by the codec. *)
Theorem isAuthenticated_passes_iff `{Env} (st : St) :
  EvNext ∈ trace (isAuthenticated st) ↔
  (no_token st ∧ exempt st) ∨ (∃ t c, presents_token st t ∧ codec t = Ok c).
Proof.
  split.
  - middleware_cases st; intros Hin; try (trace_inv Hin; fail).
    + by left.
    + right. by eauto.
  - intros [[Hno Hex] | (t & c & Ht & Hc)].
    + rewrite isAuthenticated_exempt by done. simpl. apply list_elem_of_here.
    + rewrite (isAuthenticated_accepted st t c Ht Hc). simpl.
      apply list_elem_of_further, list_elem_of_here.
Qed.

Lemma isAuthenticated_passes_iff_witness :
  EvNext ∈ trace (isAuthenticated bare_token_state).
Proof.
  apply (proj2 (isAuthenticated_passes_iff bare_token_state)).
  right. exists "good.jwt.token", sample_claims.
  split; [split; [reflexivity | discriminate] | reflexivity].
Defined.

(** X2.  A run of the middleware never throws, and it does at most one of
    the two things that end a request's stay in it: it calls [next()] at
    most once or sends at most one response, never both; when it calls
    [next()] that is the last thing it does. *)
Theorem isAuthenticated_single_outcome `{Env} (st : St) :
  (∃ v, outcome (isAuthenticated st) = Ok v) ∧
  (count_events is_next (trace (isAuthenticated st)) +
   count_events is_send (trace (isAuthenticated st)) ≤ 1)%nat ∧
  (EvNext ∈ trace (isAuthenticated st) →
   last (trace (isAuthenticated st)) = Some EvNext).
Proof.
  middleware_cases st; unfold count_events; simpl;
    (split; [by eexists|split; [lia|]]); intros Hin;
    first [reflexivity | trace_inv Hin].
Qed.

Lemma isAuthenticated_single_outcome_witness :
  EvNext ∈ trace (isAuthenticated bare_token_state) ∧
  last (trace (isAuthenticated bare_token_state)) = Some EvNext.
Proof.
  assert (EvNext ∈ trace (isAuthenticated bare_token_state)) as Hin.
  { apply list_elem_of_In. vm_compute. right. left. reflexivity. }
  split; [exact Hin|].
  exact (proj2 (proj2 (isAuthenticated_single_outcome bare_token_state)) Hin).
Defined.

(** X3.  The middleware never touches the database; it leaves the request
    as it was unless the codec accepted the token, in which case only
    [req.user] changes; and whenever it sends a response the request is
    unchanged (a rejected token never leaves an identity behind). *)
Theorem isAuthenticated_frame `{Env} (st : St) :
  st_db (final (isAuthenticated st)) = st_db st ∧
  (final (isAuthenticated st) = st ∨
   ∃ t c, presents_token st t ∧ codec t = Ok c ∧
          st_req (final (isAuthenticated st)) = set_req_user c (st_req st)) ∧
  (responds (trace (isAuthenticated st)) → final (isAuthenticated st) = st).
Proof.
  middleware_cases st; (split; [reflexivity|]).
  3:{ split; [right; by eauto|].
      intros (s & d & m & Hin). trace_inv Hin. }
  all: split; [left; by destruct st | intros _; by destruct st].
Qed.

Lemma isAuthenticated_frame_witness :
  responds (trace (isAuthenticated expired_state)) ∧
  final (isAuthenticated expired_state) = expired_state.
Proof.
  assert (responds (trace (isAuthenticated expired_state))) as Hr.
  { exists 401%Z, (tokenExpired 1), (JStr "Token Expired").
    apply list_elem_of_In. vm_compute. right. left. reflexivity. }
  split; [exact Hr|].
  exact (proj2 (proj2 (isAuthenticated_frame expired_state)) Hr).
Defined.

(** X4.  The codec is called at most once per request, and what it is
    given is the Authorization header exactly as received: nothing is
    stripped, so a header of the shape [Bearer <token>] reaches the codec
    with its prefix. *)
Theorem isAuthenticated_codec_argument `{Env} (st : St) :
  (no_token st → decrypt_calls (trace (isAuthenticated st)) = []) ∧
  (∀ t, presents_token st t →
        decrypt_calls (trace (isAuthenticated st)) = [t]) ∧
  (∀ tok, req_headers (st_req st) !! "Authorization" = Some ("Bearer " +:+ tok) →
          decrypt_calls (trace (isAuthenticated st)) = ["Bearer " +:+ tok]).
Proof.
  assert (∀ t, presents_token st t →
               decrypt_calls (trace (isAuthenticated st)) = [t]) as Hpres.
  { intros t0 Ht0. middleware_cases st;
      try (exfalso; by eapply no_token_presents);
      by rewrite (presents_token_inj st t0 t). }
  split; [|split; [exact Hpres|]].
  - intros Hno. middleware_cases st; try reflexivity;
      exfalso; by eapply no_token_presents.
  - intros tok Hh. apply Hpres. by split.
Qed.

Lemma isAuthenticated_codec_argument_witness :
  req_headers (st_req bearer_state) !! "Authorization"
    = Some ("Bearer " +:+ "good.jwt.token") ∧
  decrypt_calls (trace (isAuthenticated bearer_state))
    = ["Bearer " +:+ "good.jwt.token"].
Proof.
  split; [reflexivity|].
  exact (proj2 (proj2 (isAuthenticated_codec_argument bearer_state))
           "good.jwt.token" eq_refl).
Defined.

(** X5.  The exemption is an exact comparison of [req.url] with
    "/urls/short": an anonymous request whose url continues after it (a
    query string, a trailing slash) is not exempt and is answered 401. *)
Theorem whiteList_is_exact_match `{Env} (st : St) (suffix : string) :
  no_token st →
  req_url (st_req st) = "/urls/short" +:+ suffix →
  suffix ≠ "" →
  ¬ exempt st ∧
  isAuthenticated st =
    (Ok RetSent, st,
     [EvSend 401 (tokenExpired 0) (JStr "Failed to Authenticate")]).
Proof.
  intros Hno Hurl Hsuf.
  assert (¬ exempt st) as Hex.
  { unfold exempt, whiteListEndpoints. rewrite Hurl. intros Hin.
    apply list_elem_of_In in Hin. simpl in Hin.
    destruct Hin as [Heq|[]]. apply Hsuf. cbv in Heq. congruence. }
  split; [exact Hex|]. by apply isAuthenticated_unauthenticated.
Qed.

Lemma whiteList_is_exact_match_witness :
  no_token query_string_state ∧
  isAuthenticated query_string_state =
    (Ok RetSent, query_string_state,
     [EvSend 401 (tokenExpired 0) (JStr "Failed to Authenticate")]).
Proof.
  assert (no_token query_string_state) as Hno by (left; reflexivity).
  split; [exact Hno|].
  exact (proj2 (whiteList_is_exact_match query_string_state "?ref=mail"
                  Hno eq_refl ltac:(discriminate))).
Defined.

(** X6.  Every response of the middleware has a cause that its message
    names: "Failed to Authenticate" only for an anonymous request to a
    non-exempt path, and "Token Expired", "Corrupt Token" or
    "validationError" only when the codec threw the error of that name on
    the presented token. *)
Theorem isAuthenticated_response_cause `{Env} (st : St) s d m :
  EvSend s d m ∈ trace (isAuthenticated st) →
  (m = JStr "Failed to Authenticate" ∧ d = tokenExpired 0 ∧
   no_token st ∧ ¬ exempt st) ∨
  (∃ t e, presents_token st t ∧ codec t = Throw e ∧
     ((m = JStr "Token Expired" ∧ d = tokenExpired 1 ∧
       err_name e = Some "TokenExpiredError") ∨
      (m = JStr "Corrupt Token" ∧ d = tokenExpired 0 ∧
       err_name e = Some "JsonWebTokenError") ∨
      (m = JStr "validationError" ∧ d = tokenExpired 0 ∧
       err_name e = Some "validationError"))).
Proof.
  middleware_cases st; intros Hin; trace_inv Hin.
  - by left.
  - right. exists t, e. by eauto 10.
  - right. exists t, e. by eauto 10.
  - right. exists t, e. by eauto 10.
Qed.

Lemma isAuthenticated_response_cause_witness :
  EvSend 401 (tokenExpired 1) (JStr "Token Expired")
    ∈ trace (isAuthenticated expired_state) ∧
  ∃ t e, presents_token expired_state t ∧ sample_codec t = Throw e ∧
         err_name e = Some "TokenExpiredError".
Proof.
  assert (EvSend 401 (tokenExpired 1) (JStr "Token Expired")
            ∈ trace (isAuthenticated expired_state)) as Hin.
  { apply list_elem_of_In. vm_compute. right. left. reflexivity. }
  split; [exact Hin|].
  destruct (isAuthenticated_response_cause expired_state _ _ _ Hin)
    as [(Hm & _) | (t & e & Ht & Hc & [(_ & _ & Hn) | [(Hm & _) | (Hm & _)]])];
    try discriminate Hm.
  exists t, e. exact (conj Ht (conj Hc Hn)).
Defined.

(** * Further properties of the controllers *)

(** X7.  The controllers leave the request object as they found it and
    stay within their own calls: [createShortUrl] only logs, calls
    [create] and answers; the two lookup controllers only call [get] and
    answer.  None of them calls [next()] or the token codec. *)
Theorem controllers_frame `{Env} (st : St) :
  (st_req (final (createShortUrl st)) = st_req st ∧
   st_req (final (getShortUrl st)) = st_req st ∧
   st_req (final (getAllShortUrlsByUser st)) = st_req st) ∧
  (∀ ev, ev ∈ trace (createShortUrl st) → create_event ev) ∧
  (∀ ev, ev ∈ trace (getShortUrl st) → lookup_event ev) ∧
  (∀ ev, ev ∈ trace (getAllShortUrlsByUser st) → lookup_event ev).
Proof.
  rewrite (getAllShortUrlsByUser_unfold st).
  destruct (req_validation (st_req st)) as [|v vs] eqn:Hv.
  - rewrite (createShortUrl_valid st Hv), (getShortUrl_valid st Hv).
    destruct (service_create _ _) as [[d|e] db1];
      destruct (service_get _ _) as [[u|e'] db2]; simpl;
      (split; [done|]); repeat split; intros ev Hin;
      apply list_elem_of_In in Hin; simpl in Hin;
      repeat (destruct Hin as [<-|Hin]); try done.
  - assert (req_validation (st_req st) ≠ []) as Hne by (rewrite Hv; done).
    rewrite (createShortUrl_invalid st Hne), (getShortUrl_invalid st Hne).
    simpl. split; [done|]. repeat split; intros ev Hin;
      apply list_elem_of_In in Hin; simpl in Hin;
      destruct Hin as [<-|[]]; done.
Qed.

Lemma controllers_frame_witness :
  EvCreate (create_args_of (st_req sample_authed_state))
    ∈ trace (createShortUrl sample_authed_state) ∧
  create_event (EvCreate (create_args_of (st_req sample_authed_state))).
Proof.
  assert (EvCreate (create_args_of (st_req sample_authed_state))
            ∈ trace (createShortUrl sample_authed_state)) as Hin.
  { apply list_elem_of_In. vm_compute. right. left. reflexivity. }
  split; [exact Hin|].
  exact (proj1 (proj2 (controllers_frame sample_authed_state)) _ Hin).
Defined.

(** X8.  Whatever the validation result and whatever the service layer
    does (return or throw), a controller call never throws, calls the
    service at most once and ends with exactly one answer (a
    [sendResponse], or the envelope [handleCustomError] sends for a caught
    error). *)
Theorem controllers_answer_exactly_once `{Env} (st : St) :
  (outcome (createShortUrl st) = Ok RetSent ∧
   count_events is_send (trace (createShortUrl st)) = 1%nat ∧
   (length (create_calls (trace (createShortUrl st))) ≤ 1)%nat) ∧
  (outcome (getShortUrl st) = Ok RetSent ∧
   count_events is_send (trace (getShortUrl st)) = 1%nat ∧
   (length (get_calls (trace (getShortUrl st))) ≤ 1)%nat) ∧
  (outcome (getAllShortUrlsByUser st) = Ok RetSent ∧
   count_events is_send (trace (getAllShortUrlsByUser st)) = 1%nat ∧
   (length (get_calls (trace (getAllShortUrlsByUser st))) ≤ 1)%nat).
Proof.
  rewrite (getAllShortUrlsByUser_unfold st).
  destruct (req_validation (st_req st)) as [|v vs] eqn:Hv.
  - rewrite (createShortUrl_valid st Hv), (getShortUrl_valid st Hv).
    destruct (service_create _ _) as [[d|e] db1];
      destruct (service_get _ _) as [[u|e'] db2];
      unfold count_events; simpl; repeat split; lia.
  - assert (req_validation (st_req st) ≠ []) as Hne by (rewrite Hv; done).
    rewrite (createShortUrl_invalid st Hne), (getShortUrl_invalid st Hne).
    unfold count_events; simpl. repeat split; lia.
Qed.

(** X9.  The answer and the database effect of [createShortUrl] depend only
    on the validation result, [req.body.originalUrl], the origin header and
    the database: two requests that agree on these are served alike,
    whatever their [req.user], url, route parameters or other headers.  An
    authenticated caller is treated exactly like an anonymous one. *)
Theorem createShortUrl_ignores_identity `{Env} (st1 st2 : St) :
  req_validation (st_req st1) = req_validation (st_req st2) →
  req_body_originalUrl (st_req st1) = req_body_originalUrl (st_req st2) →
  req_headers (st_req st1) !! "origin" = req_headers (st_req st2) !! "origin" →
  st_db st1 = st_db st2 →
  st_db (final (createShortUrl st1)) = st_db (final (createShortUrl st2)) ∧
  observable (trace (createShortUrl st1)) =
    observable (trace (createShortUrl st2)).
Proof.
  intros Hv Hb Ho Hdb.
  assert (create_args_of (st_req st1) = create_args_of (st_req st2)) as Ha.
  { unfold create_args_of. by rewrite Hb, Ho. }
  destruct (req_validation (st_req st2)) as [|v vs] eqn:Hv2.
  - rewrite (createShortUrl_valid st1 Hv), (createShortUrl_valid st2 Hv2).
    rewrite Ha, Hdb.
    by destruct (service_create _ _) as [[d|e] db'].
  - rewrite (createShortUrl_invalid st1) by (rewrite Hv; done).
    rewrite (createShortUrl_invalid st2) by (rewrite Hv2; done).
    unfold validation_response, final, trace. simpl.
    by rewrite Hv, Hv2, Hdb.
Qed.

Lemma createShortUrl_ignores_identity_witness :
  req_user (st_req sample_authed_state) = Some sample_claims ∧
  req_user (st_req anonymous_state) = None ∧
  st_db (final (createShortUrl sample_authed_state)) =
    st_db (final (createShortUrl anonymous_state)) ∧
  observable (trace (createShortUrl sample_authed_state)) =
    observable (trace (createShortUrl anonymous_state)).
Proof.
  split; [reflexivity|]. split; [reflexivity|].
  exact (createShortUrl_ignores_identity sample_authed_state anonymous_state
           eq_refl eq_refl eq_refl eq_refl).
Defined.

(** X10.  A lookup depends only on the validation result,
    [req.params.urlId] and the database: the caller's identity is never
    consulted, so every caller gets the same answer for the same code. *)
Theorem getShortUrl_ignores_identity `{Env} (st1 st2 : St) :
  req_validation (st_req st1) = req_validation (st_req st2) →
  req_params_urlId (st_req st1) = req_params_urlId (st_req st2) →
  st_db st1 = st_db st2 →
  trace (getShortUrl st1) = trace (getShortUrl st2) ∧
  trace (getAllShortUrlsByUser st1) = trace (getAllShortUrlsByUser st2) ∧
  st_db (final (getShortUrl st1)) = st_db (final (getShortUrl st2)).
Proof.
  intros Hv Hp Hdb.
  rewrite (getAllShortUrlsByUser_unfold st1), (getAllShortUrlsByUser_unfold st2).
  destruct (req_validation (st_req st2)) as [|v vs] eqn:Hv2.
  - rewrite (getShortUrl_valid st1 Hv), (getShortUrl_valid st2 Hv2).
    rewrite Hp, Hdb.
    by destruct (service_get _ _) as [[u|e] db'].
  - rewrite (getShortUrl_invalid st1) by (rewrite Hv; done).
    rewrite (getShortUrl_invalid st2) by (rewrite Hv2; done).
    unfold validation_response, final, trace. simpl.
    by rewrite Hv, Hv2, Hdb.
Qed.

Lemma getShortUrl_ignores_identity_witness :
  trace (getShortUrl sample_lookup_state) =
    trace (getShortUrl
             (@mkSt sample_env
                (set_req_user sample_claims (st_req sample_lookup_state))
                sample_store)).
Proof.
  exact (proj1 (getShortUrl_ignores_identity sample_lookup_state
                  (@mkSt sample_env
                     (set_req_user sample_claims (st_req sample_lookup_state))
                     sample_store)
                  eq_refl eq_refl eq_refl)).
Defined.

(** * The middleware in front of a handler *)

(** Analyse the middleware's run inside [after_middleware]. *)
Ltac pipeline_cases st :=
  let Hr := fresh "Hr" in
  unfold after_middleware;
  pose proof (isAuthenticated_run st) as Hr;
  destruct (isAuthenticated st) as [[? ?] ?];
  inversion Hr; subst; clear Hr; simpl.

(** X11.  Behind the middleware a handler is out of reach for an
    unauthorised request: an anonymous request to a non-exempt path, or one
    whose token the codec refuses, gets the middleware's run and nothing
    more, with request and database untouched; conversely, if the service
    layer is called at all, the request was anonymous on the exempt path
    or carried a token the codec accepted. *)
Theorem handler_only_behind_authentication `{Env} (handler : M JsRet) (st : St) :
  ((no_token st ∧ ¬ exempt st) ∨
   (∃ t e, presents_token st t ∧ codec t = Throw e) →
   after_middleware isAuthenticated handler st = isAuthenticated st ∧
   final (after_middleware isAuthenticated handler st) = st) ∧
  (invokes_service (trace (after_middleware isAuthenticated handler st)) →
   (no_token st ∧ exempt st) ∨
   (∃ t c, presents_token st t ∧ codec t = Ok c)).
Proof.
  split.
  - intros Hrej.
    assert (¬ (no_token st ∧ exempt st)) as Hn1.
    { intros [Hno Hex].
      destruct Hrej as [[_ Hnex] | (t & e & Ht & _)]; [done|].
      by eapply no_token_presents. }
    assert (¬ ∃ t c, presents_token st t ∧ codec t = Ok c) as Hn2.
    { intros (t & c & Ht & Hc).
      destruct Hrej as [[Hno _] | (t' & e & Ht' & Hc')].
      - by eapply no_token_presents.
      - rewrite (presents_token_inj st t' t Ht' Ht) in Hc'. congruence. }
    pipeline_cases st; try (split; reflexivity).
    + exfalso. by apply Hn1.
    + exfalso. apply Hn2. by eauto.
  - pipeline_cases st; intros Hs; try (service_absurd Hs; fail).
    + by left.
    + right. by eauto.
Qed.

Lemma handler_only_behind_authentication_witness :
  (no_token query_string_state ∧ ¬ exempt query_string_state) ∧
  after_middleware isAuthenticated createShortUrl query_string_state =
    isAuthenticated query_string_state ∧
  final (after_middleware isAuthenticated createShortUrl query_string_state) =
    query_string_state.
Proof.
  assert (no_token query_string_state ∧ ¬ exempt query_string_state) as Hrej.
  { split; [left; reflexivity|].
    apply (bool_decide_eq_false_1 (exempt query_string_state)). reflexivity. }
  split; [exact Hrej|].
  exact (proj1 (handler_only_behind_authentication createShortUrl
                  query_string_state) (or_introl Hrej)).
Defined.

(** X12.  Behind the middleware, with a token the codec accepts and a valid
    body, [createShortUrl] sees the decoded identity (it logs it) and still
    calls [create] with the empty [userId]; the request ends up carrying
    the identity, and exactly one answer follows the [create] call. *)
Theorem authenticated_create_pipeline `{Env} (st : St) t c :
  presents_token st t → codec t = Ok c → req_validation (st_req st) = [] →
  ∃ db' answer,
    after_middleware isAuthenticated createShortUrl st =
      (Ok RetSent,
       {| st_req := set_req_user c (st_req st); st_db := db' |},
       [EvDecrypt t; EvNext; EvLog "user" (Some c);
        EvCreate {| arg_originalUrl := req_body_originalUrl (st_req st);
                    arg_baseURL := req_headers (st_req st) !! "origin";
                    arg_userId := "" |};
        answer]) ∧
    is_send answer = true.
Proof.
  intros Ht Hc Hv. unfold after_middleware.
  rewrite (isAuthenticated_accepted st t c Ht Hc). simpl.
  rewrite createShortUrl_valid by done. simpl. unfold create_args_of. simpl.
  destruct (service_create _ _) as [[d|e] db']; by do 2 eexists.
Qed.

Lemma authenticated_create_pipeline_witness :
  presents_token bare_token_state "good.jwt.token" ∧
  ∃ db' answer,
    after_middleware isAuthenticated createShortUrl bare_token_state =
      (Ok RetSent,
       {| st_req := set_req_user sample_claims (st_req bare_token_state);
          st_db := db' |},
       [EvDecrypt "good.jwt.token"; EvNext; EvLog "user" (Some sample_claims);
        EvCreate {| arg_originalUrl := Some "https://example.com/a/b";
                    arg_baseURL := Some "https://short.ly";
                    arg_userId := "" |};
        answer]) ∧
    is_send answer = true.
Proof.
  assert (presents_token bare_token_state "good.jwt.token") as Ht
    by (split; [reflexivity | discriminate]).
  split; [exact Ht|].
  exact (authenticated_create_pipeline bare_token_state "good.jwt.token"
           sample_claims Ht eq_refl eq_refl).
Defined.

(** * The round trip under the regenerate-until-free policy *)

Section RegenerateUntilFree.
Variable gen : nat -> string.
Variable valid_url : string -> bool.

Local Abbreviation regenerate := (services.regenerate gen).
Local Abbreviation create_within := (services.create_within gen valid_url).
Local Abbreviation evolves := (services.evolves gen valid_url).

(** If some later candidate is free, the loop ends at the first free one,
    whatever larger number of attempts it is allowed. *)
Lemma regenerate_finds k pos (m : gmap string services.ShortUrlMapping) :
  m !! gen (pos + k) = None →
  ∃ code pos', m !! code = None ∧
    ∀ fuel, (k < fuel)%nat → regenerate fuel pos m = Some (code, pos').
Proof.
  revert pos. induction k as [|k IH]; intros pos Hfree.
  - rewrite Nat.add_0_r in Hfree. exists (gen pos), (S pos).
    split; [done|]. intros [|fuel] Hf; [lia|]. simpl. by rewrite Hfree.
  - destruct (m !! gen pos) as [held|] eqn:Hl.
    + replace (pos + S k) with (S pos + k) in Hfree by lia.
      destruct (IH (S pos) Hfree) as (code & pos' & Hc & Hfuel).
      exists code, pos'. split; [done|].
      intros [|fuel] Hf; [lia|]. simpl. rewrite Hl. apply Hfuel. lia.
    + exists (gen pos), (S pos). split; [done|].
      intros [|fuel] Hf; [lia|]. simpl. by rewrite Hl.
Qed.

(** The budgeted [create] is the loop cut after [size + 1] attempts. *)
Lemma create_is_budgeted args st :
  services.create gen valid_url args st =
    match create_within (S (size (services.mappings st))) args st with
    | Some r => r
    | None => (Throw services.internalError, st)
    end.
Proof.
  unfold services.create, services.create_within.
  destruct (arg_originalUrl args) as [url|]; [|done].
  destruct (valid_url url); [|done].
  by destruct (regenerate _ _ _) as [[c pos]|].
Qed.

(** If every candidate from [pos] on is taken, the loop never ends. *)
Lemma regenerate_forever pos (m : gmap string services.ShortUrlMapping) :
  (∀ k, is_Some (m !! gen (pos + k))) →
  ∀ fuel, regenerate fuel pos m = None.
Proof.
  intros Hall fuel. revert pos Hall.
  induction fuel as [|fuel IH]; intros pos Hall; simpl; [done|].
  destruct (Hall 0) as [held Hl]. rewrite Nat.add_0_r in Hl. rewrite Hl.
  apply IH. intros k. replace (S pos + k) with (pos + S k) by lia. apply Hall.
Qed.

(** A returning [create] never disturbs a mapping that exists. *)
Lemma create_within_keeps fuel args st r st1 code mapping :
  create_within fuel args st = Some (r, st1) →
  services.mappings st !! code = Some mapping →
  services.mappings st1 !! code = Some mapping.
Proof.
  unfold services.create_within. intros Hc Hl.
  destruct (arg_originalUrl args) as [url|]; [|by simplify_eq].
  destruct (valid_url url); [|by simplify_eq].
  destruct (regenerate _ _ _) as [[c pos]|] eqn:Hr; [|done].
  apply regenerate_fresh in Hr. simplify_eq. simpl.
  rewrite lookup_insert_ne; [done|]. intros ->. congruence.
Qed.

Lemma evolves_keeps st st2 code mapping :
  evolves st st2 →
  services.mappings st !! code = Some mapping →
  services.mappings st2 !! code = Some mapping.
Proof.
  induction 1 as [st|st fuel args r st1 st2 Hc _ IH]; intros Hl; [done|].
  apply IH. by eapply create_within_keeps.
Qed.
End RegenerateUntilFree.



